(** * SoundTab upload-and-convert workflow (frontend/app/page.tsx)

    A shallow embedding of the [Home] component: its five [useState] cells,
    the event handlers [handleFileChange], [handleStartProcess],
    [handleDownload], [handleDrop] and the inline handlers of the render
    function, together with the part of the browser they talk to (clock,
    timer table, in-flight requests, object-URL store).

    The asynchronous function [handleStartProcess] is split at its [await]
    points; what runs after an [await] is stored in the world as a
    defunctionalised continuation and resumed by the event that settles it.

    Numbers: [processingProgress] is a JavaScript double; it is modelled by an
    exact rational, and [Math.random()] by a rational in the interval [0,1)
    supplied with the timer event. *)

From Stdlib Require Import QArith Qround Lqa ZArith Lia.
From stdpp Require Import gmap strings list.

Local Open Scope Z_scope.

(** ** Data *)

(** The DOM [File]: only the fields the component reads. *)
Record File := mkFile {
  file_name : string;
  file_type : string;   (* declared MIME type, empty when the browser has none *)
  file_size : Z
}.

(** A [Blob] is the raw response body. *)
Definition Blob := string.

(** The five [useState] cells of [Home]. [pdfUrl] holds the key of an
    object URL in the browser's URL store. *)
Record UI := mkUI {
  selectedFile : option File;
  isProcessing : bool;
  processingProgress : Q;
  processingComplete : bool;
  pdfUrl : option nat
}.

(** Calls of a state setter, as they appear in the source. *)
Inductive StateWrite :=
| WSelectedFile (f : option File)
| WIsProcessing (b : bool)
| WProgress (v : Q)            (* setProcessingProgress(v) *)
| WProgressUpdater             (* setProcessingProgress(prev => ...) *)
| WComplete (b : bool)
| WPdfUrl (u : option nat).

(** The calls the component makes, in program order. *)
Inductive Call :=
| CSetState (wr : StateWrite)
| CSetInterval (id : nat) (ms : Z)
| CClearInterval (id : nat)
| CSetTimeout (id : nat) (ms : Z)
| CFetch (url : string) (f : File)
| CConsoleError (msg : string)
| CAlert (msg : string)
| CCreateObjectURL (u : nat)
| CRevokeObjectURL (u : nat)   (* URL.revokeObjectURL: part of the browser API *)
| CDownload (href : nat) (filename : string).

(** Closure environment of one run of [handleStartProcess]:
    the constants [startTime] and [interval]. *)
Record Run := mkRun {
  startTime : Z;
  interval : nat
}.

(** Callbacks handed to [setInterval] / [setTimeout]. *)
Inductive Callback :=
| KTick                          (* the progress simulator, line 148 *)
| KFloor (run : Run) (blob : Blob) (* resolve of the padding promise, line 175 *)
| KFinish.                       (* the 500 ms completion callback, line 183 *)

Record Timer := mkTimer {
  due : Z;                (* earliest clock value at which it may fire *)
  period : option Z;      (* [Some p] for setInterval, [None] for setTimeout *)
  callback : Callback
}.

Record World := mkWorld {
  ui : UI;
  now : Z;                       (* Date.now(), milliseconds *)
  nextId : nat;                  (* supply of timer, request and URL ids *)
  timers : gmap nat Timer;       (* the browser's timer table *)
  requests : gmap nat Run;       (* fetches in flight, with the suspended run *)
  blobStore : gmap nat Blob;     (* object URLs that have not been revoked *)
  log : list Call
}.

(** How a [fetch] settles. Reading the body ([response.text()],
    [response.blob()]) is part of the settlement. *)
Inductive Body :=
| BodyRead (content : string)
| BodyError (err : string).

Inductive Outcome :=
| Rejected (err : string)                  (* transport error: fetch rejects *)
| Responded (status : Z) (body : Body).

Inductive Event :=
| EvPick (file : option File)      (* change event of the file input: files?.[0] *)
| EvDrop (file : option File)      (* drop event: dataTransfer.files?.[0] *)
| EvClear                          (* the X button next to the file name *)
| EvStart                          (* Convert to Tablature *)
| EvDownload                       (* Download Tablature *)
| EvNewConversion                  (* New Conversion *)
| EvElapse (dt : Z)                (* the clock advances *)
| EvTimer (id : nat) (rnd : Q)     (* a timer fires; rnd is Math.random() *)
| EvSettle (id : nat) (o : Outcome).

(** ** Record updates *)

Definition with_ui (f : UI -> UI) (w : World) : World :=
  mkWorld (f (ui w)) (now w) (nextId w) (timers w) (requests w) (blobStore w) (log w).
Definition with_now (t : Z) (w : World) : World :=
  mkWorld (ui w) t (nextId w) (timers w) (requests w) (blobStore w) (log w).
Definition with_nextId (n : nat) (w : World) : World :=
  mkWorld (ui w) (now w) n (timers w) (requests w) (blobStore w) (log w).
Definition with_timers (f : gmap nat Timer -> gmap nat Timer) (w : World) : World :=
  mkWorld (ui w) (now w) (nextId w) (f (timers w)) (requests w) (blobStore w) (log w).
Definition with_requests (f : gmap nat Run -> gmap nat Run) (w : World) : World :=
  mkWorld (ui w) (now w) (nextId w) (timers w) (f (requests w)) (blobStore w) (log w).
Definition with_blobStore (f : gmap nat Blob -> gmap nat Blob) (w : World) : World :=
  mkWorld (ui w) (now w) (nextId w) (timers w) (requests w) (f (blobStore w)) (log w).
Definition emit (c : Call) (w : World) : World :=
  mkWorld (ui w) (now w) (nextId w) (timers w) (requests w) (blobStore w) (log w ++ [c]).

(** ** A state monad over the world *)

Definition M (A : Type) : Type := World -> A * World.

Definition ret {A} (a : A) : M A := fun w => (a, w).
Definition bind {A B} (c : M A) (k : A -> M B) : M B :=
  fun w => let (a, w') := c w in k a w'.
Definition modify (f : World -> World) : M unit := fun w => (tt, f w).
Definition exec {A} (c : M A) (w : World) : World := snd (c w).

Declare Scope js_scope.
Delimit Scope js_scope with js.
Notation "x <- c ;; k" := (bind c (fun x => k))
  (at level 100, c at next level, right associativity) : js_scope.
Notation "c ;; k" := (bind c (fun _ => k))
  (at level 100, right associativity) : js_scope.
Local Open Scope js_scope.

(** *** React setters *)

Definition setSelectedFile (f : option File) : M unit :=
  modify (fun w => emit (CSetState (WSelectedFile f))
    (with_ui (fun u => mkUI f (isProcessing u) (processingProgress u)
                            (processingComplete u) (pdfUrl u)) w)).
Definition setIsProcessing (b : bool) : M unit :=
  modify (fun w => emit (CSetState (WIsProcessing b))
    (with_ui (fun u => mkUI (selectedFile u) b (processingProgress u)
                            (processingComplete u) (pdfUrl u)) w)).
Definition write_progress (v : Q) (u : UI) : UI :=
  mkUI (selectedFile u) (isProcessing u) v (processingComplete u) (pdfUrl u).
Definition setProcessingProgress (v : Q) : M unit :=
  modify (fun w => emit (CSetState (WProgress v)) (with_ui (write_progress v) w)).
Definition updateProcessingProgress (f : Q -> Q) : M unit :=
  modify (fun w => emit (CSetState WProgressUpdater)
    (with_ui (fun u => write_progress (f (processingProgress u)) u) w)).
Definition setProcessingComplete (b : bool) : M unit :=
  modify (fun w => emit (CSetState (WComplete b))
    (with_ui (fun u => mkUI (selectedFile u) (isProcessing u) (processingProgress u)
                            b (pdfUrl u)) w)).
Definition setPdfUrl (p : option nat) : M unit :=
  modify (fun w => emit (CSetState (WPdfUrl p))
    (with_ui (fun u => mkUI (selectedFile u) (isProcessing u) (processingProgress u)
                            (processingComplete u) p) w)).

(** *** Browser API *)

Definition dateNow : M Z := fun w => (now w, w).

Definition fresh : M nat := fun w => (nextId w, with_nextId (S (nextId w)) w).

Definition setInterval (k : Callback) (ms : Z) : M nat :=
  id <- fresh ;;
  t <- dateNow ;;
  modify (fun w => emit (CSetInterval id ms)
            (with_timers (insert id (mkTimer (t + ms) (Some ms) k)) w)) ;;
  ret id.

Definition setTimeout (k : Callback) (ms : Z) : M nat :=
  id <- fresh ;;
  t <- dateNow ;;
  modify (fun w => emit (CSetTimeout id ms)
            (with_timers (insert id (mkTimer (t + ms) None k)) w)) ;;
  ret id.

(** Clearing an id that is not in the table does nothing. *)
Definition clearInterval (id : nat) : M unit :=
  modify (fun w => emit (CClearInterval id) (with_timers (delete id) w)).

Definition fetch (url : string) (f : File) (run : Run) : M unit :=
  id <- fresh ;;
  modify (fun w => emit (CFetch url f) (with_requests (insert id run) w)).

Definition consoleError (msg : string) : M unit := modify (emit (CConsoleError msg)).
Definition alert (msg : string) : M unit := modify (emit (CAlert msg)).

Definition createObjectURL (b : Blob) : M nat :=
  u <- fresh ;;
  modify (fun w => emit (CCreateObjectURL u) (with_blobStore (insert u b) w)) ;;
  ret u.

(** [link.click()] on an anchor with [href] and [download] set. *)
Definition clickDownloadLink (href : nat) (filename : string) : M unit :=
  modify (emit (CDownload href filename)).

(** [String.prototype.endsWith]. *)
Definition endsWith (s suffix : string) : bool :=
  let n := String.length s in
  let m := String.length suffix in
  (m <=? n)%nat && String.eqb (String.substring (n - m) m s) suffix.

(** ** The handlers *)

Definition handleFileChange (file : option File) : M unit :=
  match file with
  | Some f =>
      setSelectedFile (Some f) ;;
      setProcessingComplete false ;;
      setPdfUrl None
  | None => ret tt
  end.

(** The condition of [handleDrop], line 216. *)
Definition dropAccepts (f : File) : bool :=
  String.eqb (file_type f) "audio/mpeg"
  || String.eqb (file_type f) "audio/wav"
  || String.eqb (file_type f) "audio/ogg"
  || endsWith (file_name f) ".mp3"
  || endsWith (file_name f) ".wav".

(** [e.preventDefault()] acts on the event object only. *)
Definition handleDrop (file : option File) : M unit :=
  match file with
  | Some f =>
      if dropAccepts f then
        setSelectedFile (Some f) ;;
        setProcessingComplete false
      else ret tt
  | None => ret tt
  end.

Definition minTime : Z := 20000.

(** The updater passed to [setProcessingProgress] by the interval callback. *)
Definition simTick (rnd : Q) (prev : Q) : Q :=
  if Qle_bool 90 prev then prev else (prev + rnd * 1.5)%Q.

Definition endpoint : string := "http://localhost:8000/process-audio".

(** [handleStartProcess] up to its first [await]. *)
Definition handleStartProcess : M unit :=
  w <- (fun w => (w, w)) ;;
  match selectedFile (ui w) with
  | None => ret tt
  | Some f =>
      setIsProcessing true ;;
      setProcessingProgress 0 ;;
      startTime <- dateNow ;;
      interval <- setInterval KTick 200 ;;
      fetch endpoint f (mkRun startTime interval)
  end.

(** The [catch] block. *)
Definition catchBlock (run : Run) (error : string) : M unit :=
  consoleError error ;;
  alert "Error processing file. Please check backend connection." ;;
  clearInterval (interval run) ;;
  setIsProcessing false ;;
  setProcessingProgress 0.

(** Lines 178 to 186: what runs once the floor has been honoured. *)
Definition finishSuccess (run : Run) (blob : Blob) : M unit :=
  url <- createObjectURL blob ;;
  setPdfUrl (Some url) ;;
  clearInterval (interval run) ;;
  setProcessingProgress 100 ;;
  setTimeout KFinish 500 ;;
  ret tt.

(** [response.ok]. *)
Definition response_ok (status : Z) : bool := (200 <=? status) && (status <=? 299).

(** The body of the [try] after [await fetch(...)]. *)
Definition afterFetch (run : Run) (o : Outcome) : M unit :=
  match o with
  | Rejected err => catchBlock run err
  | Responded status body =>
      if negb (response_ok status) then
        match body with
        | BodyRead errorText => catchBlock run ("Processing failed: " ++ errorText)
        | BodyError err => catchBlock run err
        end
      else
        match body with
        | BodyError err => catchBlock run err
        | BodyRead blob =>
            t <- dateNow ;;
            let elapsedTime := t - startTime run in
            if elapsedTime <? minTime then
              setTimeout (KFloor run blob) (minTime - elapsedTime) ;;
              ret tt
            else finishSuccess run blob
        end
  end.

Definition handleDownload : M unit :=
  w <- (fun w => (w, w)) ;;
  match pdfUrl (ui w) with
  | Some href => clickDownloadLink href "sheet_music.pdf"
  | None => alert "Download not ready"
  end.

(** The inline handler of the New Conversion button. *)
Definition newConversion : M unit :=
  setSelectedFile None ;;
  setProcessingComplete false ;;
  setPdfUrl None.

Definition runCallback (k : Callback) (rnd : Q) : M unit :=
  match k with
  | KTick => updateProcessingProgress (simTick rnd)
  | KFloor run blob => finishSuccess run blob
  | KFinish =>
      setIsProcessing false ;;
      setProcessingComplete true
  end.

(** A timer that fires is rescheduled when periodic and dropped otherwise. *)
Definition fireTimer (id : nat) (t : Timer) (rnd : Q) : M unit :=
  cur <- dateNow ;;
  modify (with_timers (fun ts =>
    match period t with
    | Some p => <[id := mkTimer (cur + p) (Some p) (callback t)]> ts
    | None => delete id ts
    end)) ;;
  runCallback (callback t) rnd.

(** ** The event loop *)

(** [Math.random()] returns a number in the interval [0,1). *)
Definition is_random (rnd : Q) : bool := Qle_bool 0 rnd && negb (Qle_bool 1 rnd).

(** Which controls the render function shows. *)
Definition showsClear (u : UI) : bool := bool_decide (is_Some (selectedFile u)).
Definition showsStart (u : UI) : bool :=
  bool_decide (is_Some (selectedFile u))
  && negb (isProcessing u) && negb (processingComplete u).
Definition showsResult (u : UI) : bool := processingComplete u.

(** One turn of the event loop; [None] when the event cannot occur. *)
Definition step (e : Event) (w : World) : option World :=
  match e with
  | EvPick file => Some (exec (handleFileChange file) w)
  | EvDrop file => Some (exec (handleDrop file) w)
  | EvClear =>
      if showsClear (ui w) then Some (exec (setSelectedFile None) w) else None
  | EvStart =>
      if showsStart (ui w) then Some (exec handleStartProcess w) else None
  | EvDownload =>
      if showsResult (ui w) then Some (exec handleDownload w) else None
  | EvNewConversion =>
      if showsResult (ui w) then Some (exec newConversion w) else None
  | EvElapse dt =>
      if 0 <=? dt then Some (with_now (now w + dt) w) else None
  | EvTimer id rnd =>
      match timers w !! id with
      | Some t =>
          if (due t <=? now w) && is_random rnd
          then Some (exec (fireTimer id t rnd) w) else None
      | None => None
      end
  | EvSettle id o =>
      match requests w !! id with
      | Some run => Some (exec (afterFetch run o) (with_requests (delete id) w))
      | None => None
      end
  end.

Fixpoint run (evs : list Event) (w : World) : option World :=
  match evs with
  | [] => Some w
  | e :: evs' =>
      match step e w with
      | Some w' => run evs' w'
      | None => None
      end
  end.

(** The component as mounted: the initial values of the [useState] calls. *)
Definition init : World :=
  mkWorld (mkUI None false 0 false None) 0 0 ∅ ∅ ∅ [].

Definition reachable (w : World) : Prop := exists evs, run evs init = Some w.

(** * Vocabulary of the properties *)

(** The workflow state the render function distinguishes. A failed
    conversion leaves no flag behind: after the [catch] block the component
    shows the selected file again. *)
Inductive WorkflowState := Idle | FileSelected | Processing | Complete.

Definition workflowState (u : UI) : WorkflowState :=
  if processingComplete u then Complete
  else if isProcessing u then Processing
  else match selectedFile u with Some _ => FileSelected | None => Idle end.

(** Substring test, for messages. *)
Fixpoint includes (needle hay : string) : bool :=
  String.prefix needle hay
  || match hay with
     | EmptyString => false
     | String _ rest => includes needle rest
     end.

(** What the user is shown: the texts of the alerts. *)
Definition alerts (l : list Call) : list string :=
  omap (fun c => match c with CAlert msg => Some msg | _ => None end) l.

(** The text of the alert raised by the [catch] block. *)
Definition genericAlert : string :=
  "Error processing file. Please check backend connection.".

(** ** File selection *)

(** The acceptable candidates in the words of the interface description:
    one of the three MIME types, or a name ending in a recognised
    extension. *)
Definition allowed_mime (t : string) : bool :=
  String.eqb t "audio/mpeg" || String.eqb t "audio/wav" || String.eqb t "audio/ogg".
Definition recognized_extension (n : string) : bool :=
  endsWith n ".mp3" || endsWith n ".wav" || endsWith n ".ogg" || endsWith n ".mpeg".
Definition described_acceptable (f : File) : bool :=
  allowed_mime (file_type f) || recognized_extension (file_name f).

(** What accepting [f] does to the five cells through the drop handler. *)
Definition dropped (f : File) (u : UI) : UI :=
  mkUI (Some f) (isProcessing u) (processingProgress u) false (pdfUrl u).
(** ... and through the picker. *)
Definition picked (f : File) (u : UI) : UI :=
  mkUI (Some f) (isProcessing u) (processingProgress u) false None.

(** ** Failure of the request *)


(** ** The object URL of the result *)


Definition is_revoke (u : nat) (c : Call) : bool :=
  match c with
  | CRevokeObjectURL v => Nat.eqb u v
  | _ => false
  end.

(** How often [URL.revokeObjectURL] has been called on [u]. *)
Definition revocations (u : nat) (l : list Call) : nat :=
  length (List.filter (is_revoke u) l).

(** The release the interface description asks for, between the world
    before a handler and the world after it. *)
Definition released_once (w w' : World) : Prop :=
  forall u, pdfUrl (ui w) = Some u ->
    revocations u (log w') = S (revocations u (log w)).

(** ** Progress *)

(** The simulator left to itself: one update per random draw. *)
Definition simulate (rnds : list Q) (p : Q) : Q :=
  fold_left (fun p rnd => simTick rnd p) rnds p.

(** The events on which the run's success path (lines 178 to 186) executes. *)
Definition completes (e : Event) (w : World) : Prop :=
  match e with
  | EvSettle _ (Responded status (BodyRead _)) => response_ok status = true
  | EvTimer id _ =>
      exists t r b, timers w !! id = Some t /\ callback t = KFloor r b
  | _ => False
  end.




(** * Invariants of the reachable worlds *)

(** At most one run of [handleStartProcess] is in flight, and the timer
    table and the request table hold exactly what that run has pending. *)
Inductive Phase (w : World) : Prop :=
| PhRest :
    isProcessing (ui w) = false ->
    timers w = ∅ -> requests w = ∅ ->
    (processingComplete (ui w) = true -> processingProgress (ui w) = 100%Q) ->
    Phase w
| PhFetching (rid : nat) (r : Run) (tk : Timer) :
    isProcessing (ui w) = true -> processingComplete (ui w) = false ->
    requests w = {[rid := r]} -> timers w = {[interval r := tk]} ->
    callback tk = KTick -> period tk = Some 200 ->
    (processingProgress (ui w) < 91.5)%Q ->
    Phase w
| PhFloor (r : Run) (b : Blob) (tid : nat) (d : Z) (tk : Timer) :
    isProcessing (ui w) = true -> processingComplete (ui w) = false ->
    requests w = ∅ -> tid ≠ interval r ->
    timers w = <[tid := mkTimer d None (KFloor r b)]> {[interval r := tk]} ->
    callback tk = KTick -> period tk = Some 200 ->
    (processingProgress (ui w) < 91.5)%Q ->
    Phase w
| PhFinishing (tid : nat) (d : Z) :
    isProcessing (ui w) = true -> processingComplete (ui w) = false ->
    requests w = ∅ -> timers w = {[tid := mkTimer d None KFinish]} ->
    processingProgress (ui w) = 100%Q ->
    Phase w.

Record Inv (w : World) : Prop := mkInv {
  inv_ids : forall id t, timers w !! id = Some t -> (id < nextId w)%nat;
  inv_phase : Phase w
}.



(** * Scenarios *)

Definition land (o : option World) : World :=
  match o with Some w => w | None => init end.

Definition song : File := mkFile "song.mp3" "audio/mpeg" 4096.
Definition riff : File := mkFile "riff.wav" "audio/wav" 2048.
Definition clip : File := mkFile "clip.txt" "text/plain" 12.
Definition take : File := mkFile "take.ogg" "" 1024.
Definition pdfBytes : Blob := "%PDF-1.4".

(** Scenario A. [song.mp3] has been picked; nothing has been started. *)
Definition songSelected : World := exec (handleFileChange (Some song)) init.
Definition songStarted : World := exec handleStartProcess songSelected.

(** The service answers 200 at once; the padding timer and the completion
    timer fire as soon as they are due. *)
Definition instantAnswer : list Event :=
  [EvSettle 1%nat (Responded 200 (BodyRead pdfBytes));
   EvElapse 200; EvTimer 0%nat 0.5; EvElapse 19800; EvTimer 2%nat 0;
   EvElapse 500; EvTimer 4%nat 0].
Definition songDone : World := land (run instantAnswer songStarted).
Definition songReset : World := land (step EvNewConversion songDone).

(** Scenario A with the response in and the padding timer due ... *)
Definition songPadding : World :=
  land (run [EvSettle 1%nat (Responded 200 (BodyRead pdfBytes)); EvElapse 20000]
            songStarted).
(** ... and just after that timer has fired: the success path has run, the
    500 ms completion callback is still pending. *)
Definition songFinishing : World := land (step (EvTimer 2%nat 0) songPadding).

(** Scenario C. [riff.wav] is being converted and the service answers 500. *)
Definition decodeError : Outcome := Responded 500 (BodyRead "decode error").
Definition riffStarted : World :=
  land (run [EvPick (Some riff); EvStart; EvElapse 300] init).
Definition riffFailed : World := land (step (EvSettle 1%nat decodeError) riffStarted).

(** * The rest of the component *)

(** ** What the render function shows *)




(** ** Bookkeeping over the log *)



Definition is_create (c : Call) : bool :=
  match c with
  | CCreateObjectURL _ => true
  | _ => false
  end.

(** How many object URLs have been created. *)
Definition created (l : list Call) : nat := length (List.filter is_create l).

(** The keys of the URL store come from the id supply. *)
Definition store_fresh (w : World) : Prop :=
  forall u b, blobStore w !! u = Some b -> (u < nextId w)%nat.

(** The events the user causes without pressing the start button, and the
    passing of time. *)
Definition bystander (e : Event) : bool :=
  match e with
  | EvPick _ | EvDrop _ | EvClear | EvDownload | EvNewConversion | EvElapse _ => true
  | EvStart | EvTimer _ _ | EvSettle _ _ => false
  end.


(** The settlements on which the success path is taken. *)
Definition succeeds (o : Outcome) : bool :=
  match o with
  | Responded status (BodyRead _) => response_ok status
  | _ => false
  end.

(** The X button is pressed first when it is there, so that the picker's
    label is on screen; then [f] is picked. *)
Definition pickAfresh (u : UI) (f : File) : list Event :=
  (if showsClear u then [EvClear] else []) ++ [EvPick (Some f)].

(** ** The decorations *)




(** A fret number of [TabPreview] (line 113). *)
Definition fretNumber (rnd : Q) : Z := Qfloor (rnd * 12).

(** The horizontal position, in percent, of the [numIndex]-th number of a
    line of [TabPreview] (line 111). *)
Definition fretLeft (numIndex : Z) : Z := 15 + numIndex * 18.

(** * Tactics *)

Ltac count_revocations :=
  cbn; unfold revocations; rewrite ?List.filter_app, ?length_app; cbn; lia.

(** From [log w' = log w ++ l], with [w'] computed, the calls [l]. *)
Ltac new_calls H :=
  cbn in H; rewrite <- ?app_assoc in H;
  first [ apply app_inv_head in H
        | rewrite <- (app_nil_r (log _)) in H at 1; apply app_inv_head in H ];
  subst.


Ltac count_created :=
  cbn; unfold created; rewrite ?List.filter_app, ?length_app; cbn; lia.

(** The URL store and its keys are untouched by the turn. *)
Ltac store_same HF :=
  split;
  [ let u := fresh "u" in let b := fresh "b" in let Hl := fresh "Hl" in
    intros u b Hl; cbn in Hl; pose proof (HF u b Hl); cbn; lia
  | split; [cbn; done | count_created] ].

(** The alert among the calls of a turn, if any. *)
Ltac the_alert Hin :=
  cbn in Hin;
  repeat (destruct Hin as [Hin | Hin]; [try discriminate Hin |]);
  try contradiction; try (injection Hin as <-).


(** * Proofs *)

(** ** The phase invariant *)

Lemma Inv_init : Inv init.
Proof.
  split.
  - intros id t H. cbn in H. by rewrite lookup_empty in H.
  - apply PhRest; cbn; [done | done | done | discriminate].
Qed.

Lemma simTick_bound rnd prev :
  is_random rnd = true -> (prev < 91.5)%Q -> (simTick rnd prev < 91.5)%Q.
Proof.
  unfold is_random, simTick. intros Hr Hp.
  apply andb_prop in Hr as [H0 H1].
  apply Qle_bool_iff in H0.
  apply negb_true_iff in H1.
  destruct (Qle_bool 90 prev) eqn:E; [exact Hp |].
  assert (~ (90 <= prev)%Q) by (rewrite <- Qle_bool_iff; congruence).
  assert (~ (1 <= rnd)%Q) by (rewrite <- Qle_bool_iff; congruence).
  lra.
Qed.


(** Handlers that touch neither the tables nor the progress keep the phase. *)
Lemma Inv_frame w w' :
  timers w' = timers w -> requests w' = requests w -> nextId w' = nextId w ->
  isProcessing (ui w') = isProcessing (ui w) ->
  processingProgress (ui w') = processingProgress (ui w) ->
  (processingComplete (ui w') = processingComplete (ui w)
   \/ processingComplete (ui w') = false) ->
  Inv w -> Inv w'.
Proof.
  intros Ht Hr Hn Hp Hq Hc [Hids Hph]. split.
  - rewrite Ht, Hn. exact Hids.
  - destruct Hph.
    + apply PhRest; try congruence.
      intros Hc'. rewrite Hq. destruct Hc as [Hc | Hc]; [| congruence].
      apply H2. congruence.
    + eapply PhFetching; try rewrite Hq; try rewrite Hp; try rewrite Ht;
        try rewrite Hr; eauto. destruct Hc; congruence.
    + eapply PhFloor; try rewrite Hq; try rewrite Hp; try rewrite Ht;
        try rewrite Hr; eauto. destruct Hc; congruence.
    + eapply PhFinishing; try rewrite Hq; try rewrite Hp; try rewrite Ht;
        try rewrite Hr; eauto. destruct Hc; congruence.
Qed.

Lemma Inv_handleFileChange file w : Inv w -> Inv (exec (handleFileChange file) w).
Proof.
  intros HI. destruct file as [f |]; [| exact HI].
  eapply Inv_frame; [..| exact HI]; cbn; auto.
Qed.

Lemma Inv_handleDrop file w : Inv w -> Inv (exec (handleDrop file) w).
Proof.
  intros HI. destruct file as [f |]; [| exact HI].
  unfold handleDrop. destruct (dropAccepts f); [| exact HI].
  eapply Inv_frame; [..| exact HI]; cbn; auto.
Qed.

Lemma Inv_newConversion w : Inv w -> Inv (exec newConversion w).
Proof. intros HI. eapply Inv_frame; [..| exact HI]; cbn; auto. Qed.

Lemma Inv_handleDownload w : Inv w -> Inv (exec handleDownload w).
Proof.
  intros HI. eapply Inv_frame; [..| exact HI];
    unfold handleDownload, exec, bind; cbn; destruct (pdfUrl (ui w)); cbn; auto.
Qed.

Lemma showsStart_true u :
  showsStart u = true ->
  (exists f, selectedFile u = Some f)
  /\ isProcessing u = false /\ processingComplete u = false.
Proof.
  unfold showsStart. intros H.
  apply andb_prop in H as [H Hc]. apply andb_prop in H as [Hs Hp].
  apply bool_decide_eq_true in Hs. destruct Hs as [f Hf].
  apply negb_true_iff in Hc. apply negb_true_iff in Hp. eauto.
Qed.

Lemma Inv_rest w :
  Inv w -> isProcessing (ui w) = false -> timers w = ∅ /\ requests w = ∅.
Proof.
  intros [_ Hph] Hp. destruct Hph; [auto | congruence ..].
Qed.

Lemma Inv_handleStartProcess w :
  Inv w -> showsStart (ui w) = true -> Inv (exec handleStartProcess w).
Proof.
  intros HI Hs. apply showsStart_true in Hs as [[f Hf] [Hp Hc]].
  destruct (Inv_rest w HI Hp) as [Ht Hr].
  unfold handleStartProcess, exec, bind. cbn. rewrite Hf. cbn.
  split; cbn.
  - rewrite Ht. intros id t H. apply lookup_insert_Some in H as [[<- _] | [_ H]].
    + lia.
    + by rewrite lookup_empty in H.
  - eapply PhFetching with (rid := S (nextId w)) (r := mkRun (now w) (nextId w));
      cbn; try reflexivity; try assumption.
    + rewrite Hr. reflexivity.
    + rewrite Ht. reflexivity.
    + reflexivity.
    + reflexivity.
Qed.

Lemma Inv_finishSuccess r b tk w :
  (forall id t, timers w !! id = Some t -> (id < nextId w)%nat) ->
  isProcessing (ui w) = true -> processingComplete (ui w) = false ->
  requests w = ∅ -> timers w = {[interval r := tk]} ->
  Inv (exec (finishSuccess r b) w).
Proof.
  intros Hids Hp Hc Hr Ht. unfold finishSuccess, exec, bind. cbn.
  split; cbn.
  - rewrite Ht, delete_singleton_eq.
    intros id t H. apply lookup_insert_Some in H as [[<- _] | [_ H]]; [lia |].
    by rewrite lookup_empty in H.
  - eapply PhFinishing; cbn; eauto. rewrite Ht, delete_singleton_eq. reflexivity.
Qed.

Lemma Inv_catchBlock r err tk w :
  processingComplete (ui w) = false ->
  requests w = ∅ -> timers w = {[interval r := tk]} ->
  Inv (exec (catchBlock r err) w).
Proof.
  intros Hc Hr Ht. unfold catchBlock, exec, bind. cbn.
  split; cbn.
  - rewrite Ht, delete_singleton_eq. intros id t H. by rewrite lookup_empty in H.
  - apply PhRest; cbn; auto.
    + rewrite Ht. apply delete_singleton_eq.
    + congruence.
Qed.

Lemma Inv_fireTimer id t rnd w :
  Inv w -> timers w !! id = Some t -> is_random rnd = true ->
  Inv (exec (fireTimer id t rnd) w).
Proof.
  intros [Hids Hph] Hl Hrnd. destruct Hph as
    [Hp Ht Hr Hq | rid r tk Hp Hc Hr Ht Hk Hper Hq
     | r b tid d tk Hp Hc Hr Hne Ht Hk Hper Hq | tid d Hp Hc Hr Ht Hq].
  - rewrite Ht, lookup_empty in Hl. discriminate.
  - rewrite Ht in Hl. apply lookup_singleton_Some in Hl as [<- <-].
    unfold fireTimer, exec, bind. cbn. rewrite Hper, Hk. cbn.
    split; cbn.
    + rewrite Ht, insert_singleton_eq.
      intros id t H. apply lookup_singleton_Some in H as [<- _].
      apply (Hids (interval r) tk). rewrite Ht. apply lookup_singleton_eq.
    + eapply PhFetching with (rid := rid) (r := r)
        (tk := mkTimer (now w + 200) (Some 200) KTick); cbn; auto.
      * rewrite Ht. apply insert_singleton_eq.
      * by apply simTick_bound.
  - rewrite Ht in Hl. apply lookup_insert_Some in Hl as [[<- <-] | [Hne' Hl]].
    + unfold fireTimer, exec, bind. cbn - [finishSuccess].
      apply (Inv_finishSuccess r b tk); cbn; auto.
      * intros id t H. apply (Hids id t). rewrite Ht.
        rewrite Ht, delete_insert_eq, delete_singleton_ne in H by auto.
        apply lookup_singleton_Some in H as [<- <-].
        rewrite lookup_insert_ne by auto. apply lookup_singleton_eq.
      * rewrite Ht, delete_insert_eq, delete_singleton_ne by auto. reflexivity.
    + apply lookup_singleton_Some in Hl as [<- <-].
      unfold fireTimer, exec, bind. cbn. rewrite Hper, Hk. cbn.
      split; cbn.
      * rewrite Ht, insert_insert_ne, insert_singleton_eq by auto.
        intros id t H. apply lookup_insert_Some in H as [[<- _] | [_ H]].
        -- apply (Hids tid (mkTimer d None (KFloor r b))). rewrite Ht.
           apply lookup_insert_eq.
        -- apply lookup_singleton_Some in H as [<- _].
           apply (Hids (interval r) tk). rewrite Ht.
           rewrite lookup_insert_ne by auto. apply lookup_singleton_eq.
      * eapply PhFloor with (tid := tid) (r := r) (b := b) (d := d)
          (tk := mkTimer (now w + 200) (Some 200) KTick); cbn; auto.
        -- rewrite Ht, insert_insert_ne, insert_singleton_eq by auto. reflexivity.
        -- by apply simTick_bound.
  - rewrite Ht in Hl. apply lookup_singleton_Some in Hl as [<- <-].
    unfold fireTimer, exec, bind. cbn.
    split; cbn.
    + rewrite Ht, delete_singleton_eq. intros id t H. by rewrite lookup_empty in H.
    + apply PhRest; cbn; auto. rewrite Ht. apply delete_singleton_eq.
Qed.

Lemma Inv_afterFetch rid r o w :
  Inv w -> requests w !! rid = Some r ->
  Inv (exec (afterFetch r o) (with_requests (delete rid) w)).
Proof.
  intros [Hids Hph] Hl. destruct Hph as
    [Hp Ht Hr Hq | rid' r' tk Hp Hc Hr Ht Hk Hper Hq
     | r' b tid d tk Hp Hc Hr Hne Ht Hk Hper Hq | tid d Hp Hc Hr Ht Hq];
    try (rewrite Hr, lookup_empty in Hl; discriminate).
  rewrite Hr in Hl. apply lookup_singleton_Some in Hl as [<- <-].
  assert (Hr0 : requests (with_requests (delete rid') w) = ∅).
  { cbn. rewrite Hr. apply delete_singleton_eq. }
  assert (Hcatch : forall err,
    Inv (exec (catchBlock r' err) (with_requests (delete rid') w))).
  { intros err. apply (Inv_catchBlock r' err tk); auto. }
  destruct o as [err | status [content | err]]; cbn - [catchBlock finishSuccess];
    try apply Hcatch.
  destruct (negb (response_ok status)); [apply Hcatch |].
  unfold exec, bind. cbn - [finishSuccess].
  destruct (now w - startTime r' <? minTime).
  - cbn. split; cbn.
    + rewrite Ht. intros id t H.
      apply lookup_insert_Some in H as [[<- _] | [_ H]]; [lia |].
      apply lookup_singleton_Some in H as [<- _].
      assert (interval r' < nextId w)%nat; [| lia].
      apply (Hids (interval r') tk). rewrite Ht. apply lookup_singleton_eq.
    + eapply PhFloor with (r := r') (tid := nextId w) (tk := tk); cbn; eauto.
      * assert (interval r' < nextId w)%nat; [| lia].
        apply (Hids (interval r') tk). rewrite Ht. apply lookup_singleton_eq.
      * rewrite Ht. reflexivity.
  - apply (Inv_finishSuccess r' content tk); auto.
  - destruct (negb (response_ok status)); apply Hcatch.
Qed.

Theorem Inv_step e w w' : Inv w -> step e w = Some w' -> Inv w'.
Proof.
  intros HI Hs. destruct e; cbn in Hs.
  - injection Hs as <-. by apply Inv_handleFileChange.
  - injection Hs as <-. by apply Inv_handleDrop.
  - destruct (showsClear (ui w)); [| discriminate]. injection Hs as <-.
    eapply Inv_frame; [..| exact HI]; cbn; auto.
  - destruct (showsStart (ui w)) eqn:E; [| discriminate]. injection Hs as <-.
    by apply Inv_handleStartProcess.
  - destruct (showsResult (ui w)); [| discriminate]. injection Hs as <-.
    by apply Inv_handleDownload.
  - destruct (showsResult (ui w)); [| discriminate]. injection Hs as <-.
    by apply Inv_newConversion.
  - destruct (0 <=? dt); [| discriminate]. injection Hs as <-.
    eapply Inv_frame; [..| exact HI]; cbn; auto.
  - destruct (timers w !! id) as [t |] eqn:El; [| discriminate].
    destruct (due t <=? now w); [| discriminate]. cbn in Hs.
    destruct (is_random rnd) eqn:Er; [| discriminate]. injection Hs as <-.
    by apply Inv_fireTimer.
  - destruct (requests w !! id) as [r |] eqn:El; [| discriminate].
    injection Hs as <-. by apply Inv_afterFetch.
Qed.

Lemma Inv_run evs : forall w w', Inv w -> run evs w = Some w' -> Inv w'.
Proof.
  induction evs as [| e evs IH]; intros w w' HI Hr; cbn in Hr.
  - by injection Hr as <-.
  - destruct (step e w) as [w1 |] eqn:Es; [| discriminate].
    eapply IH; [| exact Hr]. eapply Inv_step; eauto.
Qed.

Theorem Inv_reachable w : reachable w -> Inv w.
Proof. intros [evs Hr]. eapply Inv_run; [apply Inv_init | exact Hr]. Qed.

(** ** The minimum-duration floor *)






(** A 2xx response that settles before the floor does not complete the
    run: the cells are untouched and a padding timer is set for exactly
    [startTime + minTime]. *)
Lemma early_response_is_padded w rid r status blob :
  requests w !! rid = Some r ->
  response_ok status = true ->
  now w - startTime r < minTime ->
  exists w' t,
    step (EvSettle rid (Responded status (BodyRead blob))) w = Some w'
    /\ ui w' = ui w
    /\ timers w' = <[nextId w := t]> (timers w)
    /\ callback t = KFloor r blob /\ period t = None
    /\ due t = startTime r + minTime.
Proof.
  intros Hl Hok Hd. apply Z.ltb_lt in Hd.
  eexists. eexists. split.
  - cbn. rewrite Hl, Hok. unfold exec, bind. cbn. rewrite Hd. cbn. reflexivity.
  - cbn - [Z.add Z.sub minTime]. repeat split.
    change (now w + (minTime - (now w - startTime r)) = startTime r + minTime). lia.
Qed.



(** ** Start without a file *)



(** ** Download *)








(** ** Failure of the request *)




(** ** The error message *)

Lemma prefix_refl (s : string) : String.prefix s s = true.
Proof.
  induction s as [| c s IH]; cbn; [reflexivity |].
  destruct (Ascii.ascii_dec c c); [exact IH | congruence].
Qed.

Lemma includes_eq (needle hay : string) :
  includes needle hay =
  String.prefix needle hay
  || match hay with
     | EmptyString => false
     | String _ rest => includes needle rest
     end.
Proof. destruct hay; reflexivity. Qed.

Lemma includes_suffix (p t : string) : includes t (p ++ t) = true.
Proof.
  induction p as [| c p IH].
  - change (includes t t = true). rewrite includes_eq, prefix_refl. reflexivity.
  - change (includes t (String c (p ++ t)) = true).
    rewrite includes_eq, IH. apply orb_true_r.
Qed.

(** C6 (as the code has it). A response with a status outside 200..299
    makes the run throw an error whose message is [Processing failed: ]
    followed by the body text; the [catch] block writes that error to the
    console and shows the user one fixed alert, whatever the body was. *)
Theorem C6_error_goes_to_console w rid r status text :
  requests w !! rid = Some r ->
  status < 200 \/ 299 < status ->
  exists w',
    step (EvSettle rid (Responded status (BodyRead text))) w = Some w'
    /\ log w' = log w ++
         [CConsoleError ("Processing failed: " ++ text);
          CAlert genericAlert;
          CClearInterval (interval r);
          CSetState (WIsProcessing false);
          CSetState (WProgress 0)]
    /\ includes text ("Processing failed: " ++ text) = true
    /\ alerts (log w') = alerts (log w) ++ [genericAlert].
Proof.
  intros Hl Hs. eexists. split; [cbn; rewrite Hl; reflexivity |].
  assert (E : response_ok status = false).
  { unfold response_ok. apply andb_false_iff. rewrite Z.leb_gt, Z.leb_gt. lia. }
  cbn - [catchBlock]. rewrite E. cbn. repeat split.
  - rewrite <- !app_assoc. reflexivity.
  - apply (includes_suffix "Processing failed: " text).
  - unfold alerts. rewrite !omap_app. cbn. rewrite !app_nil_r. reflexivity.
Qed.

Lemma C6_witness :
  exists w',
    step (EvSettle 1%nat (Responded 500 (BodyRead "decode error"))) riffStarted = Some w'
    /\ log w' = log riffStarted ++
         [CConsoleError ("Processing failed: " ++ "decode error");
          CAlert genericAlert;
          CClearInterval (interval (mkRun 0 0));
          CSetState (WIsProcessing false);
          CSetState (WProgress 0)]
    /\ includes "decode error" ("Processing failed: " ++ "decode error") = true
    /\ alerts (log w') = alerts (log riffStarted) ++ [genericAlert].
Proof.
  apply (C6_error_goes_to_console riffStarted 1%nat (mkRun 0 0) 500 "decode error").
  - vm_compute. reflexivity.
  - lia.
Defined.

(** C6, refuted as stated: after HTTP 500 with body [decode error] the only
    message shown to the user is the fixed alert, and it does not contain
    the body text. *)
Lemma C6_counterexample :
  step (EvSettle 1%nat decodeError) riffStarted = Some riffFailed
  /\ alerts (log riffFailed) = [genericAlert]
  /\ ~ (exists msg, In msg (alerts (log riffFailed))
                    /\ includes "decode error" msg = true).
Proof.
  split; [vm_compute; reflexivity |]. split; [vm_compute; reflexivity |].
  intros [msg [Hin Hinc]].
  assert (E : alerts (log riffFailed) = [genericAlert]) by (vm_compute; reflexivity).
  rewrite E in Hin. destruct Hin as [<- | []]. vm_compute in Hinc. discriminate.
Qed.

(** ** File selection *)

(** C2, refuted as stated: [clip.txt] of type [text/plain] is outside the
    described set, yet the picker's change handler selects it. *)
Lemma C2_counterexample :
  described_acceptable clip = false
  /\ selectedFile (ui (exec (handleFileChange (Some clip)) init)) = Some clip
  /\ workflowState (ui (exec (handleFileChange (Some clip)) init)) = FileSelected
  /\ exec (handleFileChange (Some clip)) init <> init.
Proof.
  repeat split; try (vm_compute; reflexivity). intros H.
  apply (f_equal (fun w => selectedFile (ui w))) in H. discriminate.
Qed.

Lemma dropAccepts_described f : dropAccepts f = true -> described_acceptable f = true.
Proof.
  unfold dropAccepts, described_acceptable, allowed_mime, recognized_extension.
  destruct (String.eqb (file_type f) "audio/mpeg"),
    (String.eqb (file_type f) "audio/wav"),
    (String.eqb (file_type f) "audio/ogg"),
    (endsWith (file_name f) ".mp3"),
    (endsWith (file_name f) ".wav"); cbn; try reflexivity; discriminate.
Qed.

(** C2 (as the code has it). A dropped candidate outside the described set
    is ignored and the world is exactly as before, nothing being reported;
    a dropped candidate with one of the three MIME types, or a name ending
    in [.mp3] or [.wav], becomes the selected file and the completion flag
    is cleared; the picker's change handler selects whatever file it is
    given, without a type check. In no case are progress, the processing
    flag, the timers or the requests touched. *)
Theorem C2_selection w :
  (forall f, described_acceptable f = false ->
     exec (handleDrop (Some f)) w = w)
  /\ (forall f,
        allowed_mime (file_type f) = true
        \/ endsWith (file_name f) ".mp3" = true
        \/ endsWith (file_name f) ".wav" = true ->
        ui (exec (handleDrop (Some f)) w) = dropped f (ui w)
        /\ timers (exec (handleDrop (Some f)) w) = timers w
        /\ requests (exec (handleDrop (Some f)) w) = requests w)
  /\ (forall f,
        ui (exec (handleFileChange (Some f)) w) = picked f (ui w)
        /\ timers (exec (handleFileChange (Some f)) w) = timers w
        /\ requests (exec (handleFileChange (Some f)) w) = requests w).
Proof.
  split; [| split].
  - intros f Hf. unfold handleDrop.
    destruct (dropAccepts f) eqn:E; [| reflexivity].
    apply dropAccepts_described in E. congruence.
  - intros f Hf. assert (E : dropAccepts f = true).
    { unfold dropAccepts, allowed_mime in *.
      destruct Hf as [Hf | [Hf | Hf]]; rewrite ?Hf, ?orb_true_r; reflexivity. }
    unfold handleDrop. rewrite E. cbn. auto.
  - intros f. cbn. auto.
Qed.

Lemma C2_witness :
  exec (handleDrop (Some clip)) init = init
  /\ ui (exec (handleDrop (Some riff)) init) = dropped riff (ui init)
  /\ ui (exec (handleFileChange (Some clip)) init) = picked clip (ui init).
Proof.
  destruct (C2_selection init) as (Hrej & Hacc & Hpick).
  split; [apply Hrej; reflexivity |].
  split; [apply Hacc; left; reflexivity | apply Hpick].
Defined.

(** ** The object URL is never revoked *)

Lemma revocations_finishSuccess u r b w :
  revocations u (log (exec (finishSuccess r b) w)) = revocations u (log w).
Proof. count_revocations. Qed.

Lemma revocations_catchBlock u r err w :
  revocations u (log (exec (catchBlock r err) w)) = revocations u (log w).
Proof. count_revocations. Qed.

Lemma revocations_step u e w w' :
  step e w = Some w' -> revocations u (log w') = revocations u (log w).
Proof.
  intros Hs. destruct e; cbn in Hs.
  - injection Hs as <-. destruct file; count_revocations.
  - injection Hs as <-. destruct file as [f |]; [| reflexivity].
    unfold handleDrop. destruct (dropAccepts f); count_revocations.
  - destruct (showsClear (ui w)); [| discriminate]. injection Hs as <-.
    count_revocations.
  - destruct (showsStart (ui w)); [| discriminate]. injection Hs as <-.
    unfold handleStartProcess, exec, bind. cbn.
    destruct (selectedFile (ui w)); count_revocations.
  - destruct (showsResult (ui w)); [| discriminate]. injection Hs as <-.
    unfold handleDownload, exec, bind. cbn.
    destruct (pdfUrl (ui w)); count_revocations.
  - destruct (showsResult (ui w)); [| discriminate]. injection Hs as <-.
    count_revocations.
  - destruct (0 <=? dt); [| discriminate]. by injection Hs as <-.
  - destruct (timers w !! id) as [t |]; [| discriminate].
    destruct ((due t <=? now w) && is_random rnd); [| discriminate].
    injection Hs as <-.
    unfold fireTimer, exec, bind. cbn - [finishSuccess].
    destruct (callback t); [count_revocations | | count_revocations].
    etrans; [apply revocations_finishSuccess | reflexivity].
  - destruct (requests w !! id) as [r |]; [| discriminate]. injection Hs as <-.
    destruct o as [err | status [content | err]]; cbn - [catchBlock finishSuccess].
    + etrans; [apply revocations_catchBlock | reflexivity].
    + destruct (negb (response_ok status));
        [etrans; [apply revocations_catchBlock | reflexivity] |].
      unfold exec, bind. cbn - [finishSuccess].
      destruct (now w - startTime r <? minTime); [count_revocations |].
      etrans; [apply revocations_finishSuccess | reflexivity].
    + destruct (negb (response_ok status));
        (etrans; [apply revocations_catchBlock | reflexivity]).
Qed.

Lemma revocations_reachable u w : reachable w -> revocations u (log w) = 0%nat.
Proof.
  intros [evs Hr]. revert Hr.
  assert (H0 : revocations u (log init) = 0%nat) by reflexivity.
  revert H0. generalize init as w0. revert w.
  induction evs as [| e evs IH]; intros w w0 H0 Hr; cbn in Hr.
  - by injection Hr as <-.
  - destruct (step e w0) as [w1 |] eqn:Es; [| discriminate].
    eapply IH; [| exact Hr]. by rewrite (revocations_step u e w0 w1 Es).
Qed.

Lemma complete_not_processing w :
  reachable w -> processingComplete (ui w) = true -> isProcessing (ui w) = false.
Proof.
  intros Hr Hc. destruct (Inv_reachable w Hr) as [_ Hph].
  destruct Hph; congruence.
Qed.

(** C5, refuted as stated: the result of Scenario A is held as object URL 3;
    after New Conversion that URL has not been revoked once but not at all,
    and it is still in the URL store. *)
Lemma C5_counterexample :
  pdfUrl (ui songDone) = Some 3%nat
  /\ step EvNewConversion songDone = Some songReset
  /\ revocations 3 (log songReset) = 0%nat
  /\ blobStore songReset !! 3%nat = Some pdfBytes
  /\ ~ released_once songDone songReset.
Proof.
  repeat split; try (vm_compute; reflexivity).
  intros H. specialize (H 3%nat). vm_compute in H.
  specialize (H eq_refl). discriminate.
Qed.

(** C5 (as the code has it). In every reachable world no object URL has
    ever been revoked. Selecting a file through the picker, and the New
    Conversion action, clear the held reference in the same handler that
    installs the new file or resets the selection, and leave the URL store
    as it was; from Complete, New Conversion leads to Idle. *)
Theorem C5_reference_cleared_not_revoked w :
  reachable w ->
  (forall u, revocations u (log w) = 0%nat)
  /\ (forall f,
        pdfUrl (ui (exec (handleFileChange (Some f)) w)) = None
        /\ selectedFile (ui (exec (handleFileChange (Some f)) w)) = Some f
        /\ blobStore (exec (handleFileChange (Some f)) w) = blobStore w
        /\ forall u, revocations u (log (exec (handleFileChange (Some f)) w)) = 0%nat)
  /\ (pdfUrl (ui (exec newConversion w)) = None
      /\ selectedFile (ui (exec newConversion w)) = None
      /\ blobStore (exec newConversion w) = blobStore w
      /\ (forall u, revocations u (log (exec newConversion w)) = 0%nat)
      /\ (workflowState (ui w) = Complete ->
          workflowState (ui (exec newConversion w)) = Idle)).
Proof.
  intros Hr. split; [| split].
  - intros u. by apply revocations_reachable.
  - intros f. repeat split. intros u.
    rewrite <- (revocations_reachable u w Hr). count_revocations.
  - repeat split.
    + intros u. rewrite <- (revocations_reachable u w Hr). count_revocations.
    + unfold workflowState at 1.
      destruct (processingComplete (ui w)) eqn:Ec.
      * intros _. pose proof (complete_not_processing w Hr Ec) as Hp.
        unfold workflowState. cbn. by rewrite Hp.
      * destruct (isProcessing (ui w)); [discriminate |].
        destruct (selectedFile (ui w)); discriminate.
Qed.

Lemma C5_witness :
  (forall u, revocations u (log songDone) = 0%nat)
  /\ (forall f,
        pdfUrl (ui (exec (handleFileChange (Some f)) songDone)) = None
        /\ selectedFile (ui (exec (handleFileChange (Some f)) songDone)) = Some f
        /\ blobStore (exec (handleFileChange (Some f)) songDone) = blobStore songDone
        /\ forall u,
             revocations u (log (exec (handleFileChange (Some f)) songDone)) = 0%nat)
  /\ (pdfUrl (ui (exec newConversion songDone)) = None
      /\ selectedFile (ui (exec newConversion songDone)) = None
      /\ blobStore (exec newConversion songDone) = blobStore songDone
      /\ (forall u, revocations u (log (exec newConversion songDone)) = 0%nat)
      /\ (workflowState (ui songDone) = Complete ->
          workflowState (ui (exec newConversion songDone)) = Idle)).
Proof.
  apply (C5_reference_cleared_not_revoked songDone).
  exists (EvPick (Some song) :: EvStart :: instantAnswer). vm_compute. reflexivity.
Defined.

(** ** The simulator *)

Lemma is_random_range rnd : is_random rnd = true -> (0 <= rnd /\ rnd < 1)%Q.
Proof.
  unfold is_random. intros H. apply andb_prop in H as [H0 H1].
  apply Qle_bool_iff in H0. apply negb_true_iff in H1.
  assert (~ (1 <= rnd)%Q) by (rewrite <- Qle_bool_iff; congruence).
  split; lra.
Qed.

Lemma simTick_step rnd prev :
  is_random rnd = true ->
  (prev <= simTick rnd prev)%Q /\ (simTick rnd prev <= prev + 1.5)%Q.
Proof.
  intros H. apply is_random_range in H. unfold simTick.
  destruct (Qle_bool 90 prev); lra.
Qed.

Lemma simTick_hold rnd prev : (90 <= prev)%Q -> simTick rnd prev = prev.
Proof.
  intros H. unfold simTick. apply Qle_bool_iff in H. by rewrite H.
Qed.

Lemma simTick_below_100 rnd prev :
  is_random rnd = true -> (prev < 100)%Q -> (simTick rnd prev < 100)%Q.
Proof.
  intros H Hp. apply is_random_range in H. unfold simTick.
  destruct (Qle_bool 90 prev) eqn:E; [exact Hp |].
  assert (~ (90 <= prev)%Q) by (rewrite <- Qle_bool_iff; congruence). lra.
Qed.

Lemma simulate_range rnds : forall p,
  forallb is_random rnds = true ->
  (0 <= p)%Q -> (p < 91.5)%Q ->
  (0 <= simulate rnds p)%Q /\ (simulate rnds p < 91.5)%Q.
Proof.
  induction rnds as [| rnd rnds IH]; intros p Hr H0 H1; cbn in *.
  - split; assumption.
  - apply andb_prop in Hr as [Hr Hrs]. apply IH; auto.
    + pose proof (simTick_step rnd p Hr). lra.
    + by apply simTick_bound.
Qed.

Lemma only_completion_writes_100 w e w' :
  step e w = Some w' ->
  (processingProgress (ui w) < 100)%Q ->
  (processingProgress (ui w') == 100)%Q ->
  completes e w.
Proof.
  intros Hs Hlt Heq.
  assert (Hne : ~ (processingProgress (ui w) == 100)%Q) by lra.
  assert (H0 : ~ (0 == 100)%Q) by (intros H; vm_compute in H; discriminate).
  destruct e; cbn in Hs.
  - injection Hs as <-. destruct file; cbn in Heq; contradiction.
  - injection Hs as <-. destruct file as [f |]; [| contradiction].
    unfold handleDrop in Heq. destruct (dropAccepts f); cbn in Heq; contradiction.
  - destruct (showsClear (ui w)); [| discriminate]. injection Hs as <-.
    cbn in Heq. contradiction.
  - destruct (showsStart (ui w)); [| discriminate]. injection Hs as <-.
    unfold handleStartProcess, exec, bind in Heq. cbn in Heq.
    destruct (selectedFile (ui w)); cbn in Heq; contradiction.
  - destruct (showsResult (ui w)); [| discriminate]. injection Hs as <-.
    unfold handleDownload, exec, bind in Heq. cbn in Heq.
    destruct (pdfUrl (ui w)); cbn in Heq; contradiction.
  - destruct (showsResult (ui w)); [| discriminate]. injection Hs as <-.
    cbn in Heq. contradiction.
  - destruct (0 <=? dt); [| discriminate]. injection Hs as <-.
    cbn in Heq. contradiction.
  - destruct (timers w !! id) as [t |] eqn:El; [| discriminate].
    destruct (due t <=? now w); [| discriminate]. cbn in Hs.
    destruct (is_random rnd) eqn:Er; [| discriminate]. injection Hs as <-.
    unfold fireTimer, exec, bind in Heq. cbn - [finishSuccess] in Heq.
    destruct (callback t) as [| r b |] eqn:Ek; cbn in Heq.
    + pose proof (simTick_below_100 rnd _ Er Hlt). lra.
    + cbn. eauto.
    + contradiction.
  - destruct (requests w !! id) as [r |] eqn:El; [| discriminate].
    injection Hs as <-.
    destruct o as [err | status [content | err]]; cbn in Heq; try contradiction.
    + cbn. destruct (response_ok status); [reflexivity |].
      cbn in Heq. contradiction.
    + destruct (negb (response_ok status)); cbn in Heq; contradiction.
Qed.

(** C8. An update of the simulator adds between 0 and 1.5 to the progress,
    adds nothing once the progress has reached the ceiling 90, and keeps a
    progress below 100 below 100; started from 0 and left to itself it stays
    below 91.5 for any sequence of draws. A turn of the event loop that
    takes the progress from below 100 to 100 is a turn on which the run's
    success path executes: the settlement of the request with a 2xx
    response, or the firing of the padding timer that follows one. *)
Theorem C8_simulator_never_reaches_100 :
  (forall rnd prev, is_random rnd = true ->
     (prev <= simTick rnd prev)%Q /\ (simTick rnd prev <= prev + 1.5)%Q
     /\ ((90 <= prev)%Q -> simTick rnd prev = prev)
     /\ ((prev < 100)%Q -> (simTick rnd prev < 100)%Q))
  /\ (forall rnds, forallb is_random rnds = true ->
        (0 <= simulate rnds 0)%Q /\ (simulate rnds 0 < 91.5)%Q)
  /\ (forall w e w', step e w = Some w' ->
        (processingProgress (ui w) < 100)%Q ->
        (processingProgress (ui w') == 100)%Q ->
        completes e w).
Proof.
  split; [| split].
  - intros rnd prev Hr. destruct (simTick_step rnd prev Hr) as [H1 H2].
    repeat split; auto.
    + apply simTick_hold.
    + by apply simTick_below_100.
  - intros rnds Hr. apply simulate_range; auto; lra.
  - apply only_completion_writes_100.
Qed.

Lemma C8_witness :
  (simTick 0.5 89 < 100)%Q
  /\ simTick 0.5 90 = 90%Q
  /\ (simulate [0.9; 0.2; 0.7]%Q 0 < 91.5)%Q.
Proof.
  destruct C8_simulator_never_reaches_100 as (Htick & Hsim & _).
  destruct (Htick 0.5%Q 89%Q eq_refl) as (_ & _ & _ & H89).
  destruct (Htick 0.5%Q 90%Q eq_refl) as (_ & _ & H90 & _).
  split; [apply H89; reflexivity |].
  split; [apply H90; discriminate |].
  apply (Hsim [0.9; 0.2; 0.7]%Q). reflexivity.
Defined.

(** ** Progress and workflow state *)








(** ** The final write of the progress *)







(** ** The scenarios, evaluated *)

(** A dropped file that only its [.ogg] extension identifies is ignored,
    although the picker's accept list and the MIME test admit OGG. *)
Remark drop_ogg_by_extension_ignored :
  described_acceptable take = true /\ exec (handleDrop (Some take)) init = init.
Proof. split; reflexivity. Qed.

(** Scenario A end to end: Complete is reached, at 20500 ms, with the
    progress at 100 and the result held. *)
Remark scenarioA_completes :
  workflowState (ui songDone) = Complete
  /\ now songDone = 20500
  /\ processingProgress (ui songDone) = 100%Q
  /\ pdfUrl (ui songDone) = Some 3%nat
  /\ blobStore songDone !! 3%nat = Some pdfBytes.
Proof. repeat split; vm_compute; reflexivity. Qed.


(** * Further properties of the component *)

(** ** One conversion at a time *)





(** ** What the user cannot do *)

(** X3. Picking, dropping or clearing a file, downloading, resetting and the
    passing of time leave the timer table, the requests in flight, the
    processing flag, the progress and the URL store as they are: a running
    conversion can be neither cancelled nor restarted. *)
Theorem no_cancellation e w w' :
  bystander e = true ->
  step e w = Some w' ->
  timers w' = timers w /\ requests w' = requests w
  /\ isProcessing (ui w') = isProcessing (ui w)
  /\ processingProgress (ui w') = processingProgress (ui w)
  /\ blobStore w' = blobStore w.
Proof.
  intros Hb Hs. destruct e; try discriminate; cbn in Hs.
  - injection Hs as <-. destruct file; cbn; auto.
  - injection Hs as <-. destruct file as [f |]; cbn; auto.
    destruct (dropAccepts f); cbn; auto.
  - destruct (showsClear (ui w)); [| discriminate]. injection Hs as <-. cbn. auto.
  - destruct (showsResult (ui w)); [| discriminate]. injection Hs as <-.
    unfold handleDownload, exec, bind. cbn. destruct (pdfUrl (ui w)); cbn; auto.
  - destruct (showsResult (ui w)); [| discriminate]. injection Hs as <-. cbn. auto.
  - destruct (0 <=? dt); [| discriminate]. injection Hs as <-. cbn. auto.
Qed.

Lemma no_cancellation_witness :
  timers (land (step EvClear songStarted)) = timers songStarted
  /\ requests (land (step EvClear songStarted)) = requests songStarted
  /\ isProcessing (ui (land (step EvClear songStarted))) = isProcessing (ui songStarted)
  /\ processingProgress (ui (land (step EvClear songStarted)))
     = processingProgress (ui songStarted)
  /\ blobStore (land (step EvClear songStarted)) = blobStore songStarted.
Proof.
  apply (no_cancellation EvClear songStarted); reflexivity.
Defined.



(** ** No interval is left behind *)












(** ** The URL store only grows *)

Lemma store_frame w w' :
  blobStore w' = blobStore w -> (nextId w <= nextId w')%nat ->
  created (log w') = created (log w) ->
  store_fresh w ->
  store_fresh w' /\ blobStore w ⊆ blobStore w'
  /\ (size (blobStore w') + created (log w) = size (blobStore w) + created (log w'))%nat.
Proof.
  intros Hb Hn Hc HF. rewrite Hb, Hc. split; [| split; [done | lia]].
  intros u b Hl. rewrite Hb in Hl. pose proof (HF u b Hl). lia.
Qed.

Lemma store_finishSuccess r b w0 w :
  blobStore w0 = blobStore w -> (nextId w <= nextId w0)%nat ->
  created (log w0) = created (log w) ->
  store_fresh w ->
  store_fresh (exec (finishSuccess r b) w0)
  /\ blobStore w ⊆ blobStore (exec (finishSuccess r b) w0)
  /\ (size (blobStore (exec (finishSuccess r b) w0)) + created (log w)
      = size (blobStore w) + created (log (exec (finishSuccess r b) w0)))%nat.
Proof.
  intros Hb Hn Hc HF.
  assert (Hnone : blobStore w !! nextId w0 = None).
  { destruct (blobStore w !! nextId w0) as [b' |] eqn:E; [| done].
    pose proof (HF _ _ E). lia. }
  unfold finishSuccess, exec, bind. cbn. split; [| split].
  - unfold store_fresh. cbn. rewrite Hb. intros u b' Hl.
    apply lookup_insert_Some in Hl as [[<- _] | [_ Hl]]; [lia |].
    pose proof (HF u b' Hl). lia.
  - cbn. rewrite Hb. by apply insert_subseteq.
  - cbn. rewrite Hb, map_size_insert_None by done.
    unfold created in *. rewrite !List.filter_app, !length_app. cbn. lia.
Qed.

Lemma store_catchBlock r err w0 w :
  blobStore w0 = blobStore w -> (nextId w <= nextId w0)%nat ->
  created (log w0) = created (log w) ->
  store_fresh w ->
  store_fresh (exec (catchBlock r err) w0)
  /\ blobStore w ⊆ blobStore (exec (catchBlock r err) w0)
  /\ (size (blobStore (exec (catchBlock r err) w0)) + created (log w)
      = size (blobStore w) + created (log (exec (catchBlock r err) w0)))%nat.
Proof.
  intros Hb Hn Hc HF. apply store_frame; auto.
  cbn. unfold created in *. rewrite !List.filter_app, !length_app. cbn. lia.
Qed.

Lemma store_step e w w' :
  step e w = Some w' -> store_fresh w ->
  store_fresh w' /\ blobStore w ⊆ blobStore w'
  /\ (size (blobStore w') + created (log w) = size (blobStore w) + created (log w'))%nat.
Proof.
  intros Hs HF. destruct e; cbn in Hs.
  - injection Hs as <-. destruct file; store_same HF.
  - injection Hs as <-. destruct file as [f |]; [| store_same HF].
    unfold handleDrop. destruct (dropAccepts f); store_same HF.
  - destruct (showsClear (ui w)); [| discriminate]. injection Hs as <-.
    store_same HF.
  - destruct (showsStart (ui w)); [| discriminate]. injection Hs as <-.
    unfold handleStartProcess, exec, bind. cbn.
    destruct (selectedFile (ui w)); store_same HF.
  - destruct (showsResult (ui w)); [| discriminate]. injection Hs as <-.
    unfold handleDownload, exec, bind. cbn.
    destruct (pdfUrl (ui w)); store_same HF.
  - destruct (showsResult (ui w)); [| discriminate]. injection Hs as <-.
    store_same HF.
  - destruct (0 <=? dt); [| discriminate]. injection Hs as <-.
    store_same HF.
  - destruct (timers w !! id) as [t |]; [| discriminate].
    destruct ((due t <=? now w) && is_random rnd); [| discriminate].
    injection Hs as <-. unfold fireTimer, exec, bind. cbn - [finishSuccess].
    destruct (callback t); cbn - [finishSuccess].
    + store_same HF.
    + by apply store_finishSuccess.
    + store_same HF.
  - destruct (requests w !! id) as [r |]; [| discriminate]. injection Hs as <-.
    destruct o as [err | status [content | err]]; cbn - [catchBlock finishSuccess].
    + by apply store_catchBlock.
    + destruct (negb (response_ok status)); [by apply store_catchBlock |].
      unfold exec, bind. cbn - [finishSuccess].
      destruct (now w - startTime r <? minTime).
      * store_same HF.
      * by apply store_finishSuccess.
    + destruct (negb (response_ok status)); by apply store_catchBlock.
Qed.

(** X6. The URL store has exactly one entry per [createObjectURL] call the
    component has made, under a key that was never used before, and no turn
    of the event loop removes or replaces an entry: each successful
    conversion adds its blob for good. *)
Theorem url_store_only_grows w :
  reachable w ->
  size (blobStore w) = created (log w)
  /\ store_fresh w
  /\ forall e w', step e w = Some w' -> blobStore w ⊆ blobStore w'.
Proof.
  intros [evs Hr].
  assert (H : size (blobStore w) = created (log w) /\ store_fresh w).
  { revert Hr.
    assert (H0 : size (blobStore init) = created (log init) /\ store_fresh init).
    { split; [reflexivity |]. intros u b Hl. cbn in Hl. by rewrite lookup_empty in Hl. }
    revert H0. generalize init as w0. revert w.
    induction evs as [| e evs IH]; intros w w0 [Hsz HF] Hr; cbn in Hr.
    - injection Hr as <-. auto.
    - destruct (step e w0) as [w1 |] eqn:Es; [| discriminate].
      apply (IH w w1); [| exact Hr].
      destruct (store_step e w0 w1 Es HF) as (HF1 & _ & Hcount). split; [lia | exact HF1]. }
  destruct H as [Hsz HF]. split; [exact Hsz |]. split; [exact HF |].
  intros e w' Hs. by destruct (store_step e w w' Hs HF) as (_ & Hsub & _).
Qed.

Lemma url_store_only_grows_witness :
  size (blobStore songReset) = created (log songReset)
  /\ store_fresh songReset
  /\ forall e w', step e songReset = Some w' -> blobStore songReset ⊆ blobStore w'.
Proof.
  apply (url_store_only_grows songReset).
  exists (EvPick (Some song) :: EvStart :: instantAnswer ++ [EvNewConversion]).
  vm_compute. reflexivity.
Defined.

(** ** The progress bar *)







(** ** Completion can always be reached *)

Lemma run_app evs1 : forall evs2 w,
  run (evs1 ++ evs2) w =
  match run evs1 w with
  | Some w1 => run evs2 w1
  | None => None
  end.
Proof.
  induction evs1 as [| e evs1 IH]; intros evs2 w; cbn; [reflexivity |].
  destruct (step e w); [apply IH | reflexivity].
Qed.


Lemma step_elapse dt w :
  0 <= dt -> step (EvElapse dt) w = Some (with_now (now w + dt) w).
Proof. intros H. cbn. apply Z.leb_le in H. by rewrite H. Qed.

Lemma step_timer_due id t w :
  timers w !! id = Some t -> due t <= now w ->
  step (EvTimer id 0) w = Some (exec (fireTimer id t 0) w).
Proof. intros Hl Hd. cbn. apply Z.leb_le in Hd. by rewrite Hl, Hd. Qed.

(** A completion callback that is pending fires once its delay has passed,
    and does nothing but flip the two flags. *)
Lemma completion_fires w id t dt :
  timers w !! id = Some t -> callback t = KFinish -> period t = None ->
  0 <= dt -> due t <= now w + dt ->
  exists w',
    run [EvElapse dt; EvTimer id 0] w = Some w'
    /\ ui w' = mkUI (selectedFile (ui w)) false (processingProgress (ui w)) true
                    (pdfUrl (ui w))
    /\ timers w' = delete id (timers w)
    /\ requests w' = requests w
    /\ blobStore w' = blobStore w
    /\ now w' = now w + dt
    /\ log w' = log w ++ [CSetState (WIsProcessing false); CSetState (WComplete true)].
Proof.
  intros Hl Hk Hper Hdt Hdue. eexists. split.
  - cbn [run]. rewrite (step_elapse dt w Hdt).
    rewrite (step_timer_due id t (with_now (now w + dt) w) Hl Hdue). reflexivity.
  - unfold fireTimer, exec, bind. rewrite Hk, Hper. cbn.
    rewrite <- !app_assoc. auto 10.
Qed.




(** ** After a failure *)



(** ** Complete without a result *)

Lemma pickAfresh_run w f :
  exists w2,
    run (pickAfresh (ui w) f) w = Some w2
    /\ ui w2 = picked f (ui w)
    /\ timers w2 = timers w /\ requests w2 = requests w
    /\ now w2 = now w
    /\ alerts (log w2) = alerts (log w).
Proof.
  unfold pickAfresh. destruct (showsClear (ui w)) eqn:E.
  - eexists. split; [cbn; rewrite E; reflexivity |]. cbn.
    unfold alerts. rewrite !omap_app. cbn. rewrite !app_nil_r. auto 10.
  - eexists. split; [cbn; reflexivity |]. cbn.
    unfold alerts. rewrite !omap_app. cbn. rewrite !app_nil_r. auto 10.
Qed.

(** X10. The completion flag does not guarantee a result. If, while the
    500 ms completion callback is pending, the user picks a file (pressing
    the X button first when a file is shown), the picker clears the result
    reference and the callback then declares the conversion complete: the
    component shows Complete for the new file with no result held, and
    Download only alerts [Download not ready]. *)
Theorem late_pick_completes_without_result w id t f :
  reachable w ->
  timers w !! id = Some t ->
  callback t = KFinish ->
  exists w',
    run (pickAfresh (ui w) f
         ++ [EvElapse (Z.max 0 (due t - now w)); EvTimer id 0] ++ [EvDownload]) w
      = Some w'
    /\ workflowState (ui w') = Complete
    /\ selectedFile (ui w') = Some f
    /\ pdfUrl (ui w') = None
    /\ alerts (log w') = alerts (log w) ++ ["Download not ready"].
Proof.
  intros Hreach Hl Hk. destruct (Inv_reachable w Hreach) as [_ Hph].
  assert (Hper : period t = None).
  { destruct Hph as
      [Hp Ht Hq _ | rid' r' tk Hp Hc Hq Ht Hk' Hper _
       | r' b' tid d tk Hp Hc Hq Hne Ht Hk' Hper _ | tid d Hp Hc Hq Ht _];
      rewrite Ht in Hl.
    - by rewrite lookup_empty in Hl.
    - apply lookup_singleton_Some in Hl as [_ <-]. congruence.
    - apply lookup_insert_Some in Hl as [[_ <-] | [_ Hl]]; [discriminate |].
      apply lookup_singleton_Some in Hl as [_ <-]. congruence.
    - by apply lookup_singleton_Some in Hl as [_ <-]. }
  destruct (pickAfresh_run w f) as (w2 & Hrun2 & Hui2 & Ht2 & _ & Hn2 & Ha2).
  destruct (completion_fires w2 id t (Z.max 0 (due t - now w)))
    as (w3 & Hrun3 & Hui3 & _ & _ & _ & _ & Hlog3); auto; try lia.
  { by rewrite Ht2. }
  exists (exec handleDownload w3). split.
  { rewrite run_app, Hrun2, run_app, Hrun3. cbn [run step]. unfold showsResult.
    rewrite Hui3. reflexivity. }
  rewrite Hui2 in Hui3. cbn in Hui3.
  unfold handleDownload, exec, bind. cbn. rewrite Hui3. cbn. rewrite Hui3.
  split; [reflexivity |]. split; [reflexivity |]. split; [reflexivity |].
  rewrite Hlog3. unfold alerts in *.
  rewrite !omap_app, Ha2. cbn. by rewrite app_nil_r.
Qed.

Lemma late_pick_completes_without_result_witness :
  exists w',
    run (pickAfresh (ui songFinishing) riff
         ++ [EvElapse (Z.max 0 (due (mkTimer 20500 None KFinish) - now songFinishing));
             EvTimer 4%nat 0] ++ [EvDownload]) songFinishing
      = Some w'
    /\ workflowState (ui w') = Complete
    /\ selectedFile (ui w') = Some riff
    /\ pdfUrl (ui w') = None
    /\ alerts (log w') = alerts (log songFinishing) ++ ["Download not ready"].
Proof.
  apply (late_pick_completes_without_result songFinishing 4%nat
           (mkTimer 20500 None KFinish) riff).
  - exists [EvPick (Some song); EvStart;
            EvSettle 1%nat (Responded 200 (BodyRead pdfBytes));
            EvElapse 20000; EvTimer 2%nat 0].
    vm_compute. reflexivity.
  - vm_compute. reflexivity.
  - reflexivity.
Defined.

(** ** The decorations *)



(** X12. A fret number shown by [TabPreview] is an integer from 0 to 11.
    The six numbers of a line are placed 18 percent apart starting at 15
    percent, and the sixth, at 105 percent, is the only one beyond the
    right end of its line. *)
Theorem tab_preview_numbers :
  (forall rnd, is_random rnd = true -> 0 <= fretNumber rnd <= 11)
  /\ (forall i, 0 <= i <= 5 ->
        15 <= fretLeft i <= 105
        /\ (i < 5 -> fretLeft (i + 1) = fretLeft i + 18)
        /\ (fretLeft i <= 100 <-> i <= 4)).
Proof.
  split.
  - intros rnd Hr. destruct (is_random_range rnd Hr) as [H0 H1].
    unfold fretNumber. split.
    + change 0 with (Qfloor 0). apply Qfloor_resp_le. lra.
    + assert (Qfloor (rnd * 12) < 12); [| lia].
      rewrite Zlt_Qlt. pose proof (Qfloor_le (rnd * 12)).
      change (inject_Z 12) with 12%Q. lra.
  - intros i Hi. unfold fretLeft. lia.
Qed.

Lemma tab_preview_numbers_witness :
  0 <= fretNumber 0.99 <= 11 /\ 15 <= fretLeft 5 <= 105.
Proof.
  destruct tab_preview_numbers as [Hfret Hleft]. split.
  - apply Hfret. reflexivity.
  - apply (Hleft 5). lia.
Defined.

(** ** No timeout *)






(** ** When the user is alerted *)

(** X14. The component raises an alert on two occasions only: on Download
    with no result held, with the text [Download not ready], and on a
    settlement that does not take the success path, with the fixed text of
    the [catch] block. A successful conversion, and every other turn of the
    event loop, is silent. *)
Theorem alerts_only_when_failing e w w' l msg :
  step e w = Some w' ->
  log w' = log w ++ l ->
  In (CAlert msg) l ->
  (e = EvDownload /\ pdfUrl (ui w) = None /\ msg = "Download not ready")
  \/ (exists id o, e = EvSettle id o /\ succeeds o = false /\ msg = genericAlert).
Proof.
  intros Hs Hlog Hin. destruct e; cbn in Hs.
  - injection Hs as <-. destruct file; new_calls Hlog; the_alert Hin.
  - injection Hs as <-. destruct file as [f |]; [| new_calls Hlog; the_alert Hin].
    unfold handleDrop in Hlog. destruct (dropAccepts f); new_calls Hlog; the_alert Hin.
  - destruct (showsClear (ui w)); [| discriminate]. injection Hs as <-.
    new_calls Hlog; the_alert Hin.
  - destruct (showsStart (ui w)); [| discriminate]. injection Hs as <-.
    unfold handleStartProcess, exec, bind in Hlog. cbn in Hlog.
    destruct (selectedFile (ui w)); new_calls Hlog; the_alert Hin.
  - destruct (showsResult (ui w)); [| discriminate]. injection Hs as <-.
    unfold handleDownload, exec, bind in Hlog. cbn in Hlog.
    destruct (pdfUrl (ui w)) eqn:E; new_calls Hlog; the_alert Hin.
    left. auto.
  - destruct (showsResult (ui w)); [| discriminate]. injection Hs as <-.
    new_calls Hlog; the_alert Hin.
  - destruct (0 <=? dt); [| discriminate]. injection Hs as <-.
    new_calls Hlog; the_alert Hin.
  - destruct (timers w !! id) as [t |] eqn:El; [| discriminate].
    destruct ((due t <=? now w) && is_random rnd); [| discriminate].
    injection Hs as <-. unfold fireTimer, exec, bind in Hlog.
    destruct (callback t); new_calls Hlog; the_alert Hin.
  - destruct (requests w !! id) as [r |] eqn:El; [| discriminate].
    injection Hs as <-. right. exists id, o.
    destruct o as [err | status [content | err]];
      cbn - [catchBlock finishSuccess] in Hlog.
    + new_calls Hlog; the_alert Hin. auto.
    + cbn. destruct (response_ok status) eqn:Eok; cbn - [catchBlock finishSuccess] in Hlog.
      * unfold exec, bind in Hlog. cbn - [finishSuccess] in Hlog.
        destruct (now w - startTime r <? minTime); new_calls Hlog; the_alert Hin.
      * new_calls Hlog; the_alert Hin. auto.
    + destruct (negb (response_ok status)); new_calls Hlog; the_alert Hin; auto.
Qed.

Lemma alerts_only_when_failing_witness :
  (EvSettle 1%nat decodeError = EvDownload /\ pdfUrl (ui riffStarted) = None
   /\ genericAlert = "Download not ready")
  \/ (exists id o, EvSettle 1%nat decodeError = EvSettle id o
                   /\ succeeds o = false /\ genericAlert = genericAlert).
Proof.
  apply (alerts_only_when_failing (EvSettle 1%nat decodeError) riffStarted riffFailed
           [CConsoleError "Processing failed: decode error"; CAlert genericAlert;
            CClearInterval 0; CSetState (WIsProcessing false); CSetState (WProgress 0)]).
  - vm_compute. reflexivity.
  - vm_compute. reflexivity.
  - cbn. right. left. reflexivity.
Defined.

(** ** The pace of the simulator *)

Lemma simulate_pace rnds : forall p,
  forallb is_random rnds = true ->
  (simulate rnds p <= p + 1.5 * inject_Z (Z.of_nat (length rnds)))%Q.
Proof.
  induction rnds as [| rnd rnds IH]; intros p Hr.
  - change (p <= p + 1.5 * 0)%Q. lra.
  - cbn [forallb] in Hr. apply andb_prop in Hr as [Hr Hrs].
    change (simulate (rnd :: rnds) p) with (simulate rnds (simTick rnd p)).
    pose proof (IH (simTick rnd p) Hrs) as H.
    destruct (simTick_step rnd p Hr) as [_ Hup].
    change (length (rnd :: rnds)) with (S (length rnds)).
    rewrite Nat2Z.inj_succ. unfold Z.succ. rewrite inject_Z_plus.
    change (inject_Z 1) with 1%Q. lra.
Qed.

(** X15. Each update moves the progress by less than 1.5, so the simulator,
    started from 0, cannot have reached its ceiling of 90 after 60 updates
    or fewer, that is, with one update every 200 ms, within the first 12
    seconds. *)
Theorem simulator_needs_61_updates rnds :
  forallb is_random rnds = true ->
  (90 <= simulate rnds 0)%Q ->
  (61 <= length rnds)%nat.
Proof.
  intros Hr H90. destruct rnds as [| rnd rnds].
  - cbn - [Qle] in H90. lra.
  - cbn [forallb] in Hr. apply andb_prop in Hr as [Hr Hrs].
    change (simulate (rnd :: rnds) 0) with (simulate rnds (simTick rnd 0)) in H90.
    pose proof (simulate_pace rnds (simTick rnd 0) Hrs) as Hp.
    destruct (is_random_range rnd Hr) as [_ Hlt].
    assert (Hfirst : (simTick rnd 0 < 1.5)%Q).
    { unfold simTick. change (Qle_bool 90 0) with false. cbv iota. lra. }
    assert (Hn : (59 < inject_Z (Z.of_nat (length rnds)))%Q) by lra.
    change 59%Q with (inject_Z 59) in Hn. rewrite <- Zlt_Qlt in Hn.
    cbn [length]. lia.
Qed.

Lemma simulator_needs_61_updates_witness :
  (61 <= length (repeat 0.999%Q 61 ++ repeat 0.999%Q 30))%nat.
Proof.
  apply (simulator_needs_61_updates (repeat 0.999%Q 61 ++ repeat 0.999%Q 30)).
  - vm_compute. reflexivity.
  - vm_compute. discriminate.
Defined.
